(** * Bid-price scoring tool ([app.py]): model and verified properties

    The program reads a list of bid prices, computes a trimmed first
    average A1, a deviation-filtered second average A2, the benchmark
    price D = A2 * K, and a score for every bid.

    Numbers.  Python floats and numpy [float64] scalars are modelled by
    exact rationals ([Q]) extended with the special values the code can
    produce: [NaN] (numpy's mean of an empty list, 0/0) and the two
    infinities (numpy's x/0).  Binary rounding error and the sign of zero
    are abstracted away; comparisons are numeric, hence [Qeq] on finite
    values, and every comparison with [NaN] is false.

    Prices entered by the user are finite Python numbers, so a price list
    is a [list Q]; trim counts are Python integers ([Z]). *)

From Stdlib Require Import String QArith Qround Qabs ZArith List Lia Lqa Bool.
From Stdlib Require Import Sorted Permutation.
Import ListNotations.

Open Scope Q_scope.

(** ** Extended rationals: the values of [float] / [numpy.float64] *)

Module Num.

Inductive t : Type :=
| Fin (q : Q)
| Inf (neg : bool)
| NaN.

Definition Qlt_bool (x y : Q) : bool := negb (Qle_bool y x).

Definition sub (a b : t) : t :=
  match a, b with
  | NaN, _ | _, NaN => NaN
  | Fin x, Fin y => Fin (x - y)
  | Inf s, Fin _ => Inf s
  | Fin _, Inf s => Inf (negb s)
  | Inf s, Inf s' => if Bool.eqb s s' then NaN else Inf s
  end.

Definition mul (a b : t) : t :=
  match a, b with
  | NaN, _ | _, NaN => NaN
  | Fin x, Fin y => Fin (x * y)
  | Inf s, Fin y | Fin y, Inf s =>
      if Qeq_bool y 0 then NaN else Inf (xorb s (Qlt_bool y 0))
  | Inf s, Inf s' => Inf (xorb s s')
  end.

(** numpy scalar division: a zero divisor gives an infinity or [NaN]
    (with a warning), never an exception. *)
Definition div (a b : t) : t :=
  match a, b with
  | NaN, _ | _, NaN => NaN
  | Fin x, Fin y =>
      if Qeq_bool y 0
      then (if Qeq_bool x 0 then NaN else Inf (Qlt_bool x 0))
      else Fin (x / y)
  | Fin _, Inf _ => Fin 0
  | Inf s, Fin y => Inf (xorb s (Qlt_bool y 0))
  | Inf _, Inf _ => NaN
  end.

Definition abs (a : t) : t :=
  match a with
  | Fin x => Fin (Qabs x)
  | Inf _ => Inf false
  | NaN => NaN
  end.

Definition eqb (a b : t) : bool :=
  match a, b with
  | Fin x, Fin y => Qeq_bool x y
  | Inf s, Inf s' => Bool.eqb s s'
  | _, _ => false
  end.

Definition ltb (a b : t) : bool :=
  match a, b with
  | Fin x, Fin y => Qlt_bool x y
  | Inf true, Fin _ => true
  | Inf true, Inf false => true
  | Fin _, Inf false => true
  | _, _ => false
  end.

Definition leb (a b : t) : bool :=
  match a, b with
  | Fin x, Fin y => Qle_bool x y
  | Inf true, Fin _ => true
  | Inf s, Inf s' => implb s' s
  | Fin _, Inf false => true
  | _, _ => false
  end.

Definition gtb (a b : t) : bool := ltb b a.

(** Nearest integer, ties to the even one. *)
Definition round_half_even (q : Q) : Z :=
  let f := Qfloor q in
  let r := q - inject_Z f in
  if Qlt_bool r (1 # 2) then f
  else if Qlt_bool (1 # 2) r then (f + 1)%Z
  else if Z.even f then f else (f + 1)%Z.

(** [round(x, ndigits)] on a float. *)
Definition round (a : t) (ndigits : nat) : t :=
  match a with
  | Fin x =>
      let scale := inject_Z (10 ^ Z.of_nat ndigits) in
      Fin (inject_Z (round_half_even (x * scale)) / scale)
  | other => other
  end.

(** The builtin [max(a, b)]: the first argument stays unless the second
    is strictly greater. *)
Definition max2 (a b : t) : t := if gtb b a then b else a.

(** Numeric agreement of two values (Python's [==] on finite values;
    also identifies equal special values). *)
Definition same (a b : t) : Prop :=
  match a, b with
  | Fin x, Fin y => x == y
  | Inf s, Inf s' => s = s'
  | NaN, NaN => True
  | _, _ => False
  end.

(** [lo <= a <= hi] for a finite [a]. *)
Definition within (lo hi : Q) (a : t) : Prop :=
  match a with
  | Fin x => lo <= x /\ x <= hi
  | _ => False
  end.

Definition positive (a : t) : Prop :=
  match a with
  | Fin x => 0 < x
  | _ => False
  end.

End Num.

Abbreviation num := Num.t.
Abbreviation Fin := Num.Fin.
Abbreviation Inf := Num.Inf.
Abbreviation NaN := Num.NaN.

(** ** Exceptions *)

Inductive exn : Type :=
| ValueError.

Inductive outcome (A : Type) : Type :=
| Returns (a : A)
| Raises (e : exn).

Arguments Returns {A} a.
Arguments Raises {A} e.

Definition bind {A B : Type} (c : outcome A) (f : A -> outcome B) : outcome B :=
  match c with
  | Returns a => f a
  | Raises e => Raises e
  end.

Notation "x <- c ;; k" := (bind c (fun x => k))
  (at level 61, c at next level, right associativity).

(** A list comprehension [[x for x in l if f x]] whose condition may raise. *)
Fixpoint filterM {A : Type} (f : A -> outcome bool) (l : list A)
  : outcome (list A) :=
  match l with
  | [] => Returns []
  | x :: rest =>
      b <- f x ;;
      kept <- filterM f rest ;;
      Returns (if b then x :: kept else kept)
  end.

(** ** Python and numpy builtins used by the program *)

(** [lst[start:stop]] with Python's index adjustment: a negative index
    counts from the end, and both ends are clipped to the list. *)
Definition adjust_index (len i : Z) : Z :=
  if (i <? 0)%Z then Z.max (i + len) 0 else Z.min i len.

Definition py_slice {A : Type} (l : list A) (start stop : Z) : list A :=
  let len := Z.of_nat (length l) in
  let a := adjust_index len start in
  let b := adjust_index len stop in
  firstn (Z.to_nat (b - a)) (skipn (Z.to_nat a) l).

(** [sorted(l)]: ascending and stable. *)
Fixpoint insert (x : Q) (l : list Q) : list Q :=
  match l with
  | [] => [x]
  | y :: rest => if Qle_bool x y then x :: y :: rest else y :: insert x rest
  end.

Fixpoint sorted (l : list Q) : list Q :=
  match l with
  | [] => []
  | x :: rest => insert x (sorted rest)
  end.

(** [max(l)]: the first maximal element; [ValueError] on an empty list. *)
Fixpoint max_from (best : Q) (l : list Q) : Q :=
  match l with
  | [] => best
  | x :: rest => max_from (if Num.Qlt_bool best x then x else best) rest
  end.

Definition py_max (l : list Q) : outcome Q :=
  match l with
  | [] => Raises ValueError
  | x :: rest => Returns (max_from x rest)
  end.

Definition sum (l : list Q) : Q := fold_right Qplus 0 l.

(** [np.mean(l)]: [nan] on an empty list (numpy warns, does not raise). *)
Definition np_mean (l : list Q) : num :=
  match l with
  | [] => NaN
  | _ :: _ => Fin (sum l / inject_Z (Z.of_nat (length l)))
  end.

(** ** The program *)

Open Scope string_scope.

Definition note_all : string := "所有评标价的平均值".
Definition note_zero_left : string :=
  "所有评标价的平均值（剔除后有效供应商数为0）".
Definition note_one_left : string :=
  "去掉最高价后的平均值（剔除后有效供应商数为1）".
Definition note_remaining : string := "剩余评标价的平均值".
Definition note_fallback_first : string :=
  "使用首次平均价（无有效价格在偏离范围内）".
Definition note_within_band : string := "偏离范围内价格的平均值".

Close Scope string_scope.

(** [sorted_prices[k:n-m]] of [calculate_first_average]. *)
Definition remaining_prices (prices : list Q) (m k : Z) : list Q :=
  let n := Z.of_nat (length prices) in
  py_slice (sorted prices) k (n - m).

(** [[p for p in prices if p != max(prices)]] *)
Definition prices_without_highest (prices : list Q) : outcome (list Q) :=
  filterM (fun p => hi <- py_max prices ;; Returns (negb (Qeq_bool p hi)))
          prices.

Definition calculate_first_average (prices : list Q) (m k : Z)
  : outcome (num * list Q * string) :=
  let n := Z.of_nat (length prices) in
  if (n <=? 3)%Z then Returns (np_mean prices, prices, note_all)
  else
    let remaining := remaining_prices prices m k in
    if (length remaining =? 0)%nat then
      Returns (np_mean prices, prices, note_zero_left)
    else if (length remaining =? 1)%nat then
      without <- prices_without_highest prices ;;
      Returns (np_mean without, without, note_one_left)
    else
      Returns (np_mean remaining, remaining, note_remaining).

(** The condition [s1 <= (first_avg - p) / first_avg <= s2]. *)
Definition in_band (first_avg : num) (s1 s2 : Q) (p : Q) : bool :=
  let d := Num.div (Num.sub first_avg (Fin p)) first_avg in
  Num.leb (Fin s1) d && Num.leb d (Fin s2).

Definition calculate_second_average (prices : list Q) (first_avg : num)
  (s1 s2 : Q) : num * list Q * string :=
  let valid_prices := filter (in_band first_avg s1 s2) prices in
  match valid_prices with
  | [] => (first_avg, prices, note_fallback_first)
  | _ :: _ => (np_mean valid_prices, valid_prices, note_within_band)
  end.

Definition calculate_price_score (bid_price : Q) (base_price : num)
  (e_higher e_lower : Q) : num :=
  let bid := Fin bid_price in
  let loss (e : Q) :=
    Num.mul (Num.mul (Num.div (Num.abs (Num.sub bid base_price)) base_price)
                     (Fin 100))
            (Fin e) in
  if Num.eqb bid base_price then Fin 100
  else
    let score :=
      if Num.gtb bid base_price then Num.sub (Fin 100) (loss e_higher)
      else Num.sub (Fin 100) (loss e_lower) in
    Num.max2 (Num.round score 2) (Fin 0).

(** The sidebar parameters. *)
Record params : Type := {
  k_value : Q;
  e_higher : Q;
  e_lower : Q;
  use_elimination : bool;
  m_value : Z;
  k_value_elim : Z;
  s1_value : Q;
  s2_value : Q
}.

(** One entry of [results]. *)
Record row : Type := {
  index : nat;
  price : Q;
  row_first_avg : num;
  first_deviation : num;
  row_second_avg : num;
  row_base_price : num;
  final_deviation : num;
  score : num
}.

Record report : Type := {
  first_avg : num;
  first_basis : list Q;
  first_avg_note : string;
  second_avg : num;
  final_prices : list Q;
  second_avg_note : string;
  base_price : num;
  results : list row
}.

(** [for i, price in enumerate(prices, start)]: one row per bid. *)
Fixpoint score_rows (cfg : params) (a1 a2 d : num) (start : nat)
  (prices : list Q) : list row :=
  match prices with
  | [] => []
  | p :: rest =>
      {| index := start;
         price := p;
         row_first_avg := a1;
         first_deviation := Num.round (Num.div (Num.sub a1 (Fin p)) a1) 4;
         row_second_avg := a2;
         row_base_price := d;
         final_deviation := Num.round (Num.div (Num.sub a2 (Fin p)) a2) 4;
         score := calculate_price_score p d (e_higher cfg) (e_lower cfg) |}
      :: score_rows cfg a1 a2 d (S start) rest
  end.

(** The body of the script under [if prices:]; nothing is computed for an
    empty price list. *)
Definition evaluate (cfg : params) (prices : list Q) : outcome (option report) :=
  match prices with
  | [] => Returns None
  | _ :: _ =>
      first <- (if use_elimination cfg
                then calculate_first_average prices (m_value cfg) (k_value_elim cfg)
                else calculate_first_average prices 0 0) ;;
      let '(a1, remaining, note1) := first in
      let '(a2, final, note2) :=
        calculate_second_average remaining a1 (s1_value cfg) (s2_value cfg) in
      let d := Num.mul a2 (Fin (k_value cfg)) in
      Returns (Some {| first_avg := a1;
                       first_basis := remaining;
                       first_avg_note := note1;
                       second_avg := a2;
                       final_prices := final;
                       second_avg_note := note2;
                       base_price := d;
                       results := score_rows cfg a1 a2 d 1 prices |})
  end.

(** The scores of a run, in bid order. *)
Definition scores_of (r : outcome (option report)) : list num :=
  match r with
  | Returns (Some rep) => map score (results rep)
  | _ => []
  end.

(** ** Vocabulary of the specification *)

(** A validated price list: every price is positive. *)
Definition validated (prices : list Q) : Prop :=
  forall p, In p prices -> 0 < p.

(** [hi] is a maximum of [prices]. *)
Definition is_maximum (hi : Q) (prices : list Q) : Prop :=
  In hi prices /\ forall p, In p prices -> p <= hi.

(** The list with every price numerically equal to [hi] removed. *)
Definition without (hi : Q) (prices : list Q) : list Q :=
  filter (fun p => negb (Qeq_bool p hi)) prices.

(** The arithmetic mean of a non-empty list. *)
Definition arithmetic_mean (l : list Q) : Q :=
  sum l / inject_Z (Z.of_nat (length l)).

(** The relative deviation of [p] from [a], positive when [p] is below. *)
Definition deviation (a p : Q) : Q := (a - p) / a.

Definition band (a s1 s2 : Q) (p : Q) : bool :=
  Qle_bool s1 (deviation a p) && Qle_bool (deviation a p) s2.

(** The prices of [R] whose deviation from [a] lies in [s1, s2]. *)
Definition kept_in_band (a s1 s2 : Q) (R : list Q) : list Q :=
  filter (band a s1 s2) R.

(** [round(x, 2)] on a finite value. *)
Definition round2 (x : Q) : Q := inject_Z (Num.round_half_even (x * 100)) / 100.

(** The points lost by a bid [p] against benchmark [d] with coefficient [e]. *)
Definition loss (p d e : Q) : Q := Qabs (p - d) / d * 100 * e.

(** [max(x, 0)] on a finite value. *)
Definition clamp0 (x : Q) : Q := if Num.Qlt_bool x 0 then 0 else x.

(** The score against a finite, non-zero benchmark. *)
Definition score_value (p d eh el : Q) : Q :=
  if Qeq_bool p d then 100
  else clamp0 (round2 (100 - loss p d (if Num.Qlt_bool d p then eh else el))).

(** The widgets' initial values. *)
Definition default_params : params :=
  {| k_value := 9 # 10;
     e_higher := 1;
     e_lower := 1 # 2;
     use_elimination := false;
     m_value := 0;
     k_value_elim := 0;
     s1_value := - (2 # 10);
     s2_value := 1 # 10 |}.

(** The defaults with the elimination rule switched on. *)
Definition with_trim (m k : Z) : params :=
  {| k_value := 9 # 10;
     e_higher := 1;
     e_lower := 1 # 2;
     use_elimination := true;
     m_value := m;
     k_value_elim := k;
     s1_value := - (2 # 10);
     s2_value := 1 # 10 |}.

(** ** Session state and manual entry *)

(** [st.session_state]: the last accepted prices and the recalculation
    flag. *)
Record session : Type := {
  current_prices : list Q;
  need_recalculate : bool
}.


Definition store_prices (prices : list Q) (st : session) : session :=
  {| current_prices := prices; need_recalculate := false |}.


(** The content of the text area as the script sees it: empty (falsy),
    with a non-blank line that [float] rejects ([ValueError]), or the
    (finite) numbers read from its non-blank lines. *)
Inductive text_entry : Type :=
| Blank
| NotNumeric
| Numbers (l : list Q).

Open Scope string_scope.

Definition error_not_positive : string := "评标价格必须大于0".
Definition error_not_numeric : string := "请输入有效的数值".

Close Scope string_scope.

(** The manual-entry branch: the prices it leaves in [prices], the session
    state, and the error shown, if any. *)
Definition manual_input (entry : text_entry) (st : session)
  : list Q * session * option string :=
  match entry with
  | Blank => ([], st, None)
  | NotNumeric => ([], st, Some error_not_numeric)
  | Numbers l =>
      if existsb (fun p => Qle_bool p 0) l
      then ([], st, Some error_not_positive)
      else (l, store_prices l st, None)
  end.

(** [if not prices and st.session_state.current_prices:
       prices = st.session_state.current_prices] *)
Definition prices_for_run (prices : list Q) (st : session) : list Q :=
  match prices, current_prices st with
  | [], _ :: _ => current_prices st
  | _, _ => prices
  end.

(** One pass of the script with manual entry: the new session state, the
    error shown, and the outcome of the computation. *)
Definition run_manual (cfg : params) (entry : text_entry) (st : session)
  : session * option string * outcome (option report) :=
  let '(prices, st', err) := manual_input entry st in
  (st', err, evaluate cfg (prices_for_run prices st')).

(** The score before rounding and clamping, for a bid other than [d]. *)
Definition raw_score (p d eh el : Q) : Q :=
  100 - loss p d (if Num.Qlt_bool d p then eh else el).

(** ** Basic facts *)

Lemma Qlt_bool_iff (x y : Q) : Num.Qlt_bool x y = true <-> x < y.
Proof.
  unfold Num.Qlt_bool. rewrite negb_true_iff.
  split; intro H.
  - apply Qnot_le_lt. intro Hle. apply Qle_bool_iff in Hle. congruence.
  - apply not_true_is_false. intro Hle. apply Qle_bool_iff in Hle.
    apply Qlt_not_le in H. contradiction.
Qed.

Lemma Qlt_bool_false_iff (x y : Q) : Num.Qlt_bool x y = false <-> y <= x.
Proof.
  unfold Num.Qlt_bool. rewrite negb_false_iff. apply Qle_bool_iff.
Qed.

Lemma Qeq_bool_false_iff (x y : Q) : Qeq_bool x y = false <-> ~ x == y.
Proof.
  split; intro H.
  - intro E. apply Qeq_bool_iff in E. congruence.
  - apply not_true_is_false. intro E. apply Qeq_bool_iff in E. contradiction.
Qed.

Lemma filterM_pure {A : Type} (f : A -> outcome bool) (g : A -> bool)
  (l : list A) :
  (forall x, In x l -> f x = Returns (g x)) ->
  filterM f l = Returns (filter g l).
Proof.
  induction l as [|x rest IH]; intro H; simpl.
  - reflexivity.
  - rewrite (H x (or_introl eq_refl)). simpl.
    rewrite IH by (intros y Hy; apply H; right; exact Hy).
    simpl. reflexivity.
Qed.

(** *** [max] *)

Lemma max_from_ge_best (l : list Q) : forall best, best <= max_from best l.
Proof.
  induction l as [|x rest IH]; intro best; simpl.
  - apply Qle_refl.
  - destruct (Num.Qlt_bool best x) eqn:E.
    + apply Qlt_bool_iff in E. eapply Qle_trans; [apply Qlt_le_weak, E | apply IH].
    + apply IH.
Qed.

Lemma max_from_upper (l : list Q) :
  forall best p, In p l -> p <= max_from best l.
Proof.
  induction l as [|x rest IH]; intros best p Hin; simpl.
  - destruct Hin.
  - destruct Hin as [-> | Hin].
    + destruct (Num.Qlt_bool best p) eqn:E.
      * apply max_from_ge_best.
      * apply Qlt_bool_false_iff in E.
        eapply Qle_trans; [exact E | apply max_from_ge_best].
    + apply IH, Hin.
Qed.

Lemma max_from_in (l : list Q) :
  forall best, max_from best l = best \/ In (max_from best l) l.
Proof.
  induction l as [|x rest IH]; intro best; simpl.
  - left; reflexivity.
  - destruct (Num.Qlt_bool best x).
    + destruct (IH x) as [-> | H]; auto.
    + destruct (IH best) as [-> | H]; auto.
Qed.

Lemma py_max_is_maximum (x : Q) (rest : list Q) :
  is_maximum (max_from x rest) (x :: rest).
Proof.
  split.
  - destruct (max_from_in rest x) as [-> | H]; [left | right]; auto.
  - intros p [<- | Hin].
    + apply max_from_ge_best.
    + apply max_from_upper, Hin.
Qed.

(** Two maxima of one list are numerically equal. *)
Lemma is_maximum_unique (prices : list Q) (a b : Q) :
  is_maximum a prices -> is_maximum b prices -> a == b.
Proof.
  intros [Ha Ua] [Hb Ub]. apply Qle_antisym; auto.
Qed.

Lemma without_ext (a b : Q) (l : list Q) : a == b -> without a l = without b l.
Proof.
  intro E. unfold without. apply filter_ext. intro p.
  f_equal. destruct (Qeq_bool p b) eqn:Eb.
  - apply Qeq_bool_iff. apply Qeq_bool_iff in Eb. rewrite E. exact Eb.
  - apply Qeq_bool_false_iff. apply Qeq_bool_false_iff in Eb.
    rewrite E. exact Eb.
Qed.

(** The comprehension never raises: [max] is only called on a non-empty
    list. *)
Lemma prices_without_highest_returns (x : Q) (rest : list Q) :
  prices_without_highest (x :: rest) =
  Returns (without (max_from x rest) (x :: rest)).
Proof.
  unfold prices_without_highest, without.
  apply filterM_pure. intros p _. reflexivity.
Qed.

Lemma prices_without_highest_nil : prices_without_highest [] = Returns [].
Proof. reflexivity. Qed.

(** *** [sorted] and slices *)

Lemma insert_length (x : Q) (l : list Q) : length (insert x l) = S (length l).
Proof.
  induction l as [|y rest IH]; simpl; [reflexivity|].
  destruct (Qle_bool x y); simpl; [reflexivity | now rewrite IH].
Qed.

Lemma sorted_length (l : list Q) : length (sorted l) = length l.
Proof.
  induction l as [|x rest IH]; simpl; [reflexivity|].
  now rewrite insert_length, IH.
Qed.

Lemma insert_in (x p : Q) (l : list Q) : In p (insert x l) <-> p = x \/ In p l.
Proof.
  induction l as [|y rest IH]; simpl.
  - intuition.
  - destruct (Qle_bool x y); simpl; [intuition|].
    rewrite IH. intuition.
Qed.

Lemma sorted_in (p : Q) (l : list Q) : In p (sorted l) <-> In p l.
Proof.
  induction l as [|x rest IH]; simpl; [tauto|].
  rewrite insert_in, IH. intuition.
Qed.

Lemma firstn_incl {A : Type} (n : nat) :
  forall (l : list A) (x : A), In x (firstn n l) -> In x l.
Proof.
  induction n as [|n IH]; intros [|y l] x H; simpl in *; try tauto.
  destruct H as [-> | H]; [left; reflexivity | right; apply IH, H].
Qed.

Lemma skipn_incl {A : Type} (n : nat) :
  forall (l : list A) (x : A), In x (skipn n l) -> In x l.
Proof.
  induction n as [|n IH]; intros [|y l] x H; simpl in *; try tauto.
  right; apply IH, H.
Qed.

Lemma py_slice_in {A : Type} (l : list A) (a b : Z) (x : A) :
  In x (py_slice l a b) -> In x l.
Proof.
  unfold py_slice. intro H.
  apply firstn_incl in H. apply skipn_incl in H. exact H.
Qed.

Lemma remaining_prices_in (prices : list Q) (m k : Z) (p : Q) :
  In p (remaining_prices prices m k) -> In p prices.
Proof.
  unfold remaining_prices. intro H.
  apply py_slice_in in H. now apply sorted_in.
Qed.

(** With in-range, non-negative counts the slice drops [k] prices at the
    low end and [m] at the high end. *)
Lemma remaining_prices_length (prices : list Q) (m k : Z) :
  (0 <= k)%Z -> (0 <= m <= Z.of_nat (length prices))%Z ->
  Z.of_nat (length (remaining_prices prices m k)) =
  Z.max 0 (Z.of_nat (length prices) - m - k).
Proof.
  intros Hk Hm. unfold remaining_prices, py_slice.
  rewrite length_firstn, length_skipn, sorted_length.
  unfold adjust_index.
  destruct (Z.ltb_spec k 0); [lia|].
  destruct (Z.ltb_spec (Z.of_nat (length prices) - m) 0); lia.
Qed.

(** ** The branches of [calculate_first_average] *)

Section FirstAverage.

Variables (prices : list Q) (m k : Z).

Lemma first_average_small :
  (length prices <= 3)%nat ->
  calculate_first_average prices m k = Returns (np_mean prices, prices, note_all).
Proof.
  intro H. unfold calculate_first_average.
  destruct (Z.leb_spec (Z.of_nat (length prices)) 3); [reflexivity | lia].
Qed.

Lemma first_average_zero_left :
  (3 < length prices)%nat ->
  length (remaining_prices prices m k) = 0%nat ->
  calculate_first_average prices m k =
  Returns (np_mean prices, prices, note_zero_left).
Proof.
  intros H H0. unfold calculate_first_average.
  destruct (Z.leb_spec (Z.of_nat (length prices)) 3); [lia|].
  rewrite H0. reflexivity.
Qed.

Lemma first_average_one_left :
  (3 < length prices)%nat ->
  length (remaining_prices prices m k) = 1%nat ->
  exists hi,
    is_maximum hi prices /\
    calculate_first_average prices m k =
    Returns (np_mean (without hi prices), without hi prices, note_one_left).
Proof.
  intros H H1. unfold calculate_first_average.
  destruct (Z.leb_spec (Z.of_nat (length prices)) 3); [lia|].
  rewrite H1. cbn [Nat.eqb].
  destruct prices as [|x rest] eqn:E; [simpl in H; lia|].
  exists (max_from x rest). split.
  - apply py_max_is_maximum.
  - rewrite prices_without_highest_returns. reflexivity.
Qed.

Lemma first_average_many_left :
  (3 < length prices)%nat ->
  (2 <= length (remaining_prices prices m k))%nat ->
  calculate_first_average prices m k =
  Returns (np_mean (remaining_prices prices m k),
           remaining_prices prices m k, note_remaining).
Proof.
  intros H H2. unfold calculate_first_average.
  destruct (Z.leb_spec (Z.of_nat (length prices)) 3); [lia|].
  destruct (length (remaining_prices prices m k)) as [|[|c]]; [lia | lia |].
  reflexivity.
Qed.


End FirstAverage.


(** ** Claims about the first average *)

(** C4. For a price list of at most three prices, whatever the trim counts
    [m] and [k], [calculate_first_average] returns the mean of all prices
    (for a non-empty list: their sum divided by their number) with the full
    list as basis and the plain-mean note; [m] and [k] play no part. *)
Theorem small_pool_plain_mean (prices : list Q) (m k : Z) :
  (length prices <= 3)%nat ->
  calculate_first_average prices m k = Returns (np_mean prices, prices, note_all)
  /\ (prices <> [] -> np_mean prices = Fin (arithmetic_mean prices))
  /\ calculate_first_average prices m k = calculate_first_average prices 0 0.
Proof.
  intro H. split; [|split].
  - apply first_average_small, H.
  - destruct prices; [congruence | reflexivity].
  - now rewrite !first_average_small.
Qed.

Lemma small_pool_plain_mean_witness :
  calculate_first_average [3; 4; 8] 2 1 = Returns (Fin (15 / 3), [3; 4; 8], note_all).
Proof.
  apply (small_pool_plain_mean [3; 4; 8] 2 1). simpl. lia.
Defined.

(** C3. When more than three prices are given and exactly one price
    survives the trim, [calculate_first_average] returns as basis the
    original list with its maximum price removed, as A1 the mean of that
    reduced list (not of the single survivor), and the drop-max note. *)
Theorem single_survivor_drops_max (prices : list Q) (m k : Z) :
  (3 < length prices)%nat ->
  length (remaining_prices prices m k) = 1%nat ->
  exists hi,
    is_maximum hi prices /\
    calculate_first_average prices m k =
    Returns (np_mean (without hi prices), without hi prices, note_one_left) /\
    (without hi prices <> [] ->
     np_mean (without hi prices) = Fin (arithmetic_mean (without hi prices))).
Proof.
  intros H H1.
  destruct (first_average_one_left prices m k H H1) as (hi & Hmax & Hres).
  exists hi. repeat split; try apply Hmax; [exact Hres|].
  destruct (without hi prices); [congruence | reflexivity].
Qed.

Lemma single_survivor_drops_max_witness :
  exists hi,
    is_maximum hi [10; 40; 20; 30] /\
    calculate_first_average [10; 40; 20; 30] 2 1 =
    Returns (np_mean (without hi [10; 40; 20; 30]),
             without hi [10; 40; 20; 30], note_one_left) /\
    (without hi [10; 40; 20; 30] <> [] ->
     np_mean (without hi [10; 40; 20; 30]) =
     Fin (arithmetic_mean (without hi [10; 40; 20; 30]))).
Proof.
  apply (single_survivor_drops_max [10; 40; 20; 30] 2 1).
  - simpl. lia.
  - reflexivity.
Defined.

(** C10. In the single-survivor fallback every copy of the maximum price
    is removed: the returned basis contains no price equal to a maximum of
    the original list, and every other price is kept. *)
Theorem single_survivor_drops_every_max (prices : list Q) (m k : Z) :
  (3 < length prices)%nat ->
  length (remaining_prices prices m k) = 1%nat ->
  exists a1 basis note,
    calculate_first_average prices m k = Returns (a1, basis, note) /\
    forall hi, is_maximum hi prices ->
      (forall p, In p basis -> ~ p == hi) /\
      (forall p, In p prices -> ~ p == hi -> In p basis).
Proof.
  intros H H1.
  destruct (first_average_one_left prices m k H H1) as (hi & Hmax & Hres).
  exists (np_mean (without hi prices)), (without hi prices), note_one_left.
  split; [exact Hres|].
  intros hi' Hmax'.
  rewrite (without_ext hi hi' prices (is_maximum_unique prices hi hi' Hmax Hmax')).
  unfold without. split; intros p.
  - rewrite filter_In, negb_true_iff, Qeq_bool_false_iff. tauto.
  - intros Hin Hne. rewrite filter_In, negb_true_iff, Qeq_bool_false_iff. tauto.
Qed.

Lemma single_survivor_drops_every_max_witness :
  exists a1 basis note,
    calculate_first_average [7; 9; 9; 5; 9] 0 4 = Returns (a1, basis, note) /\
    forall hi, is_maximum hi [7; 9; 9; 5; 9] ->
      (forall p, In p basis -> ~ p == hi) /\
      (forall p, In p [7; 9; 9; 5; 9] -> ~ p == hi -> In p basis).
Proof.
  apply (single_survivor_drops_every_max [7; 9; 9; 5; 9] 0 4).
  - simpl. lia.
  - reflexivity.
Defined.

(** C8 as stated fails: with four prices and m = k = 2 the trim removes
    every price (k + m >= n, n > 3), and the run raises nothing: it
    returns a report. *)
Lemma trim_all_run_returns :
  (Z.of_nat (length [1; 2; 3; 4]) <=
   k_value_elim (with_trim 2 2) + m_value (with_trim 2 2))%Z /\
  (3 < length [1; 2; 3; 4])%nat /\
  (exists rep, evaluate (with_trim 2 2) [1; 2; 3; 4] = Returns (Some rep)) /\
  ~ (exists e, evaluate (with_trim 2 2) [1; 2; 3; 4] = Raises e).
Proof.
  split; [simpl; lia|]. split; [simpl; lia|]. split.
  - eexists. vm_compute. reflexivity.
  - intros [e He]. vm_compute in He. discriminate He.
Qed.

(** C8, amended. When more than three prices are given and the trim counts
    (non-negative, [m] at most [n]) remove every price, nothing is raised:
    [calculate_first_average] returns the mean of all original prices with
    the full list as basis and the zero-survivor note, and the run
    completes with a report built on that average. *)
Theorem trim_all_falls_back_to_full_mean (cfg : params) (prices : list Q) :
  use_elimination cfg = true ->
  (3 < length prices)%nat ->
  (0 <= k_value_elim cfg)%Z ->
  (0 <= m_value cfg <= Z.of_nat (length prices))%Z ->
  (Z.of_nat (length prices) <= k_value_elim cfg + m_value cfg)%Z ->
  calculate_first_average prices (m_value cfg) (k_value_elim cfg) =
    Returns (Fin (arithmetic_mean prices), prices, note_zero_left) /\
  exists rep,
    evaluate cfg prices = Returns (Some rep) /\
    first_avg rep = Fin (arithmetic_mean prices) /\
    first_basis rep = prices /\
    first_avg_note rep = note_zero_left.
Proof.
  intros Huse Hn Hk Hm Hall.
  assert (Hfirst : calculate_first_average prices (m_value cfg) (k_value_elim cfg)
                   = Returns (Fin (arithmetic_mean prices), prices, note_zero_left)).
  { rewrite first_average_zero_left; [| exact Hn |].
    - destruct prices; [simpl in Hn; lia | reflexivity].
    - pose proof (remaining_prices_length prices (m_value cfg)
                    (k_value_elim cfg) Hk Hm) as Hlen. lia. }
  split; [exact Hfirst|].
  unfold evaluate. destruct prices as [|x rest] eqn:E; [simpl in Hn; lia|].
  rewrite Huse, Hfirst. cbn [bind].
  destruct (calculate_second_average _ _ _ _) as [[a2 fin] note2].
  eexists. split; [reflexivity|]. simpl. auto.
Qed.

Lemma trim_all_falls_back_to_full_mean_witness :
  calculate_first_average [1; 2; 3; 4] 2 2 =
    Returns (Fin (arithmetic_mean [1; 2; 3; 4]), [1; 2; 3; 4], note_zero_left) /\
  exists rep,
    evaluate (with_trim 2 2) [1; 2; 3; 4] = Returns (Some rep) /\
    first_avg rep = Fin (arithmetic_mean [1; 2; 3; 4]) /\
    first_basis rep = [1; 2; 3; 4] /\
    first_avg_note rep = note_zero_left.
Proof.
  apply (trim_all_falls_back_to_full_mean (with_trim 2 2) [1; 2; 3; 4]);
    simpl; try reflexivity; lia.
Defined.

(** ** The second average *)

Lemma in_band_fin (a s1 s2 p : Q) :
  ~ a == 0 -> in_band (Fin a) s1 s2 p = band a s1 s2 p.
Proof.
  intro Ha. unfold in_band, band, deviation. cbn [Num.sub Num.div].
  apply Qeq_bool_false_iff in Ha. rewrite Ha. reflexivity.
Qed.

Lemma band_iff (a s1 s2 p : Q) :
  band a s1 s2 p = true <-> s1 <= deviation a p /\ deviation a p <= s2.
Proof.
  unfold band. rewrite andb_true_iff, !Qle_bool_iff. tauto.
Qed.

(** C5. For a basis [R] and a finite A1 other than 0,
    [calculate_second_average] keeps exactly the prices of [R] (in order)
    whose deviation (A1 - p) / A1 lies in [s1, s2]; when some price is
    kept it returns their mean and the kept list, and when none is kept it
    returns A1 itself with [R] unchanged. *)
Theorem second_average_band (R : list Q) (a s1 s2 : Q) :
  ~ a == 0 ->
  (forall p, In p (kept_in_band a s1 s2 R) <->
             In p R /\ s1 <= deviation a p /\ deviation a p <= s2) /\
  (kept_in_band a s1 s2 R <> [] ->
   calculate_second_average R (Fin a) s1 s2 =
   (Fin (arithmetic_mean (kept_in_band a s1 s2 R)), kept_in_band a s1 s2 R,
    note_within_band)) /\
  (kept_in_band a s1 s2 R = [] ->
   calculate_second_average R (Fin a) s1 s2 = (Fin a, R, note_fallback_first)).
Proof.
  intro Ha.
  assert (E : filter (in_band (Fin a) s1 s2) R = kept_in_band a s1 s2 R).
  { apply filter_ext. intro p. apply in_band_fin, Ha. }
  split; [|split].
  - intro p. unfold kept_in_band. rewrite filter_In, band_iff. tauto.
  - intro Hne. unfold calculate_second_average. rewrite E.
    destruct (kept_in_band a s1 s2 R); [congruence | reflexivity].
  - intro Hnil. unfold calculate_second_average. rewrite E, Hnil. reflexivity.
Qed.

Lemma second_average_band_witness :
  (forall p, In p (kept_in_band 100 (- (2 # 10)) (1 # 10) [90; 130; 100]) <->
             In p [90; 130; 100] /\
             - (2 # 10) <= deviation 100 p /\ deviation 100 p <= 1 # 10) /\
  (kept_in_band 100 (- (2 # 10)) (1 # 10) [90; 130; 100] <> [] ->
   calculate_second_average [90; 130; 100] (Fin 100) (- (2 # 10)) (1 # 10) =
   (Fin (arithmetic_mean (kept_in_band 100 (- (2 # 10)) (1 # 10) [90; 130; 100])),
    kept_in_band 100 (- (2 # 10)) (1 # 10) [90; 130; 100], note_within_band)) /\
  (kept_in_band 100 (- (2 # 10)) (1 # 10) [90; 130; 100] = [] ->
   calculate_second_average [90; 130; 100] (Fin 100) (- (2 # 10)) (1 # 10) =
   (Fin 100, [90; 130; 100], note_fallback_first)).
Proof.
  apply (second_average_band [90; 130; 100] 100 (- (2 # 10)) (1 # 10)).
  intro H. discriminate H.
Defined.

(** ** The score *)

Lemma round_fin (x : Q) : Num.round (Fin x) 2 = Fin (round2 x).
Proof. reflexivity. Qed.

Lemma max2_fin (x : Q) : Num.max2 (Fin x) (Fin 0) = Fin (clamp0 x).
Proof.
  unfold Num.max2, Num.gtb, clamp0. cbn [Num.ltb].
  destruct (Num.Qlt_bool x 0); reflexivity.
Qed.

Lemma calculate_price_score_fin (p d eh el : Q) :
  ~ d == 0 ->
  calculate_price_score p (Fin d) eh el = Fin (score_value p d eh el).
Proof.
  intro Hd. apply Qeq_bool_false_iff in Hd.
  unfold calculate_price_score, score_value.
  cbn [Num.eqb Num.gtb Num.ltb Num.sub Num.abs Num.div].
  rewrite Hd. cbn [Num.mul Num.sub].
  destruct (Qeq_bool p d); [reflexivity|].
  destruct (Num.Qlt_bool d p); rewrite round_fin, max2_fin; reflexivity.
Qed.

Lemma round_half_even_bounds (q : Q) :
  (Qfloor q <= Num.round_half_even q <= Qfloor q + 1)%Z.
Proof.
  unfold Num.round_half_even. cbv zeta.
  destruct (Num.Qlt_bool _ _); [lia|].
  destruct (Num.Qlt_bool _ _); [lia|].
  destruct (Z.even _); lia.
Qed.

Lemma round_half_even_Z (z : Z) : Num.round_half_even (inject_Z z) = z.
Proof.
  unfold Num.round_half_even. cbv zeta. rewrite Qfloor_Z.
  assert (H : Num.Qlt_bool (inject_Z z - inject_Z z) (1 # 2) = true)
    by (apply Qlt_bool_iff; lra).
  now rewrite H.
Qed.

Lemma round_half_even_mono (x y : Q) :
  x <= y -> (Num.round_half_even x <= Num.round_half_even y)%Z.
Proof.
  intro H. pose proof (Qfloor_resp_le _ _ H) as Hf.
  pose proof (round_half_even_bounds x) as Bx.
  pose proof (round_half_even_bounds y) as By.
  destruct (Z.eq_dec (Qfloor x) (Qfloor y)) as [E | NE]; [|lia].
  clear Bx By Hf. unfold Num.round_half_even. cbv zeta. rewrite <- E.
  set (f := inject_Z (Qfloor x)).
  destruct (Num.Qlt_bool (x - f) (1 # 2)) eqn:E1.
  - destruct (Num.Qlt_bool (y - f) (1 # 2)); [lia|].
    destruct (Num.Qlt_bool (1 # 2) (y - f)); [lia|].
    destruct (Z.even (Qfloor x)); lia.
  - apply Qlt_bool_false_iff in E1.
    assert (E1' : Num.Qlt_bool (y - f) (1 # 2) = false)
      by (apply Qlt_bool_false_iff; lra).
    rewrite E1'.
    destruct (Num.Qlt_bool (1 # 2) (x - f)) eqn:E2.
    + apply Qlt_bool_iff in E2.
      assert (E2' : Num.Qlt_bool (1 # 2) (y - f) = true)
        by (apply Qlt_bool_iff; lra).
      rewrite E2'. lia.
    + destruct (Num.Qlt_bool (1 # 2) (y - f)); destruct (Z.even (Qfloor x)); lia.
Qed.

Lemma round2_mono (x y : Q) : x <= y -> round2 x <= round2 y.
Proof.
  intro H. unfold round2.
  assert (Hs : x * 100 <= y * 100) by lra.
  apply round_half_even_mono in Hs. rewrite Zle_Qle in Hs.
  unfold Qdiv. apply Qmult_le_compat_r; [exact Hs | discriminate].
Qed.

Lemma round2_100 : round2 100 == 100.
Proof. reflexivity. Qed.

Lemma clamp0_nonneg (x : Q) : 0 <= clamp0 x.
Proof.
  unfold clamp0. destruct (Num.Qlt_bool x 0) eqn:E; [lra|].
  now apply Qlt_bool_false_iff in E.
Qed.

Lemma clamp0_mono (x y : Q) : x <= y -> clamp0 x <= clamp0 y.
Proof.
  intro H. unfold clamp0.
  destruct (Num.Qlt_bool x 0) eqn:Ex; destruct (Num.Qlt_bool y 0) eqn:Ey;
    try apply Qlt_bool_iff in Ex; try apply Qlt_bool_iff in Ey;
    try apply Qlt_bool_false_iff in Ex; try apply Qlt_bool_false_iff in Ey; lra.
Qed.

Lemma clamp0_upper (x b : Q) : 0 <= b -> x <= b -> clamp0 x <= b.
Proof.
  intros Hb H. unfold clamp0. destruct (Num.Qlt_bool x 0); assumption.
Qed.

Lemma loss_nonneg (p d e : Q) : 0 < d -> 0 <= e -> 0 <= loss p d e.
Proof.
  intros Hd He. unfold loss, Qdiv.
  repeat apply Qmult_le_0_compat; try assumption; try discriminate.
  - apply Qabs_nonneg.
  - apply Qlt_le_weak, Qinv_lt_0_compat, Hd.
Qed.

Lemma loss_mono (p1 p2 d e : Q) :
  0 < d -> 0 <= e -> Qabs (p1 - d) <= Qabs (p2 - d) ->
  loss p1 d e <= loss p2 d e.
Proof.
  intros Hd He H. unfold loss, Qdiv.
  repeat apply Qmult_le_compat_r; try assumption; try discriminate.
  apply Qlt_le_weak, Qinv_lt_0_compat, Hd.
Qed.

Lemma loss_comp (p d e e' : Q) : e == e' -> loss p d e == loss p d e'.
Proof. intro E. unfold loss. now rewrite E. Qed.

(** Against a positive benchmark and with non-negative coefficients the
    score lies between 0 and 100. *)
Lemma score_value_range (p d eh el : Q) :
  0 < d -> 0 <= eh -> 0 <= el ->
  0 <= score_value p d eh el <= 100.
Proof.
  intros Hd Hh Hl. unfold score_value.
  destruct (Qeq_bool p d); [split; discriminate|].
  split; [apply clamp0_nonneg|].
  apply clamp0_upper; [discriminate|].
  apply Qle_trans with (round2 100); [|apply Qle_lteq; right; apply round2_100].
  apply round2_mono.
  assert (0 <= loss p d (if Num.Qlt_bool d p then eh else el)).
  { apply loss_nonneg; [exact Hd|]. destruct (Num.Qlt_bool d p); assumption. }
  lra.
Qed.


(** C6. Against a benchmark D > 0, and whatever the penalty coefficients,
    a bid exactly equal to D scores exactly 100. *)
Theorem score_at_benchmark (p d eh el : Q) :
  0 < d -> p == d -> calculate_price_score p (Fin d) eh el = Fin 100.
Proof.
  intros _ E. unfold calculate_price_score. cbn [Num.eqb].
  apply Qeq_bool_iff in E. now rewrite E.
Qed.

Lemma score_at_benchmark_witness :
  calculate_price_score 90 (Fin 90) 1 (1 # 2) = Fin 100.
Proof.
  apply (score_at_benchmark 90 90 1 (1 # 2)); reflexivity.
Defined.

(** C7 as stated fails: with D = 100 and the default coefficients
    (1 above, 1/2 below), the bid 110 is nearer to D than the bid 85 and
    yet scores less (90 against 92.5). *)
Lemma score_not_monotone_across_sides :
  0 < 100 /\
  Qabs (110 - 100) <= Qabs (85 - 100) /\
  Num.same (calculate_price_score 110 (Fin 100) 1 (1 # 2)) (Fin 90) /\
  Num.same (calculate_price_score 85 (Fin 100) 1 (1 # 2)) (Fin (185 # 2)) /\
  Num.leb (calculate_price_score 85 (Fin 100) 1 (1 # 2))
          (calculate_price_score 110 (Fin 100) 1 (1 # 2)) = false.
Proof.
  repeat split; try discriminate; vm_compute; reflexivity.
Qed.

(** C7, amended. For a benchmark D > 0 and non-negative coefficients, the
    score does not increase with the distance |p - D| between bids on the
    same side of D (or between any two bids when the two coefficients are
    equal): if |p1 - D| <= |p2 - D| then score(p1) >= score(p2). *)
Theorem score_monotone_same_side (d eh el p1 p2 : Q) :
  0 < d -> 0 <= eh -> 0 <= el ->
  Qabs (p1 - d) <= Qabs (p2 - d) ->
  (d <= p1 /\ d <= p2) \/ (p1 <= d /\ p2 <= d) \/ eh == el ->
  Num.leb (calculate_price_score p2 (Fin d) eh el)
          (calculate_price_score p1 (Fin d) eh el) = true.
Proof.
  intros Hd Hh Hl Habs Hside.
  rewrite !calculate_price_score_fin by lra.
  cbn [Num.leb]. apply Qle_bool_iff.
  destruct (Qeq_bool p1 d) eqn:E1.
  - unfold score_value at 2. rewrite E1.
    apply (score_value_range p2 d eh el Hd Hh Hl).
  - unfold score_value. rewrite E1.
    apply Qeq_bool_false_iff in E1.
    destruct (Qeq_bool p2 d) eqn:E2.
    + exfalso. apply E1. apply Qeq_bool_iff in E2.
      assert (H0 : Qabs (p1 - d) <= 0).
      { eapply Qle_trans; [exact Habs|].
        rewrite (Qabs_wd (p2 - d) 0) by lra. discriminate. }
      apply Qabs_Qle_condition in H0. lra.
    + apply Qeq_bool_false_iff in E2.
      apply clamp0_mono, round2_mono.
      assert (Hloss :
        loss p1 d (if Num.Qlt_bool d p1 then eh else el) <=
        loss p2 d (if Num.Qlt_bool d p2 then eh else el)).
      { destruct (Num.Qlt_bool d p1) eqn:S1; destruct (Num.Qlt_bool d p2) eqn:S2;
          try (apply loss_mono; assumption);
          try apply Qlt_bool_iff in S1; try apply Qlt_bool_iff in S2;
          try apply Qlt_bool_false_iff in S1; try apply Qlt_bool_false_iff in S2.
        - destruct Hside as [[A B] | [[A B] | Heq]].
          + exfalso. apply E2. lra.
          + exfalso. apply E1. lra.
          + rewrite (loss_comp p2 d el eh) by (symmetry; exact Heq).
            apply loss_mono; assumption.
        - destruct Hside as [[A B] | [[A B] | Heq]].
          + exfalso. apply E1. lra.
          + exfalso. apply E2. lra.
          + rewrite (loss_comp p2 d eh el) by exact Heq.
            apply loss_mono; assumption. }
      lra.
Qed.

Lemma score_monotone_same_side_witness :
  Num.leb (calculate_price_score 120 (Fin 100) 1 (1 # 2))
          (calculate_price_score 110 (Fin 100) 1 (1 # 2)) = true.
Proof.
  apply (score_monotone_same_side 100 1 (1 # 2) 110 120).
  - reflexivity.
  - discriminate.
  - discriminate.
  - discriminate.
  - left. split; discriminate.
Defined.

(** ** The whole run *)

Lemma first_average_basis (prices : list Q) (m k : Z) (a1 : num)
  (basis : list Q) (note : string) :
  calculate_first_average prices m k = Returns (a1, basis, note) ->
  a1 = np_mean basis /\ forall p, In p basis -> In p prices.
Proof.
  intro H.
  destruct (Nat.le_gt_cases (length prices) 3) as [Hs | Hl].
  - rewrite (first_average_small prices m k Hs) in H.
    injection H as <- <- _. auto.
  - destruct (length (remaining_prices prices m k)) as [|[|c]] eqn:E.
    + rewrite (first_average_zero_left prices m k Hl E) in H.
      injection H as <- <- _. auto.
    + destruct (first_average_one_left prices m k Hl E) as (hi & _ & Hres).
      rewrite Hres in H. injection H as <- <- _. split; [reflexivity|].
      intros p Hp. unfold without in Hp. apply filter_In in Hp. tauto.
    + rewrite first_average_many_left in H by lia.
      injection H as <- <- _. split; [reflexivity|].
      intro p. apply remaining_prices_in.
Qed.

(** The basis can only be empty in the single-survivor branch, when all
    prices are equal. *)
Lemma first_average_basis_empty (prices : list Q) (m k : Z) (a1 : num)
  (note : string) :
  prices <> [] ->
  calculate_first_average prices m k = Returns (a1, [], note) ->
  (3 < length prices)%nat /\
  length (remaining_prices prices m k) = 1%nat /\
  forall p q, In p prices -> In q prices -> p == q.
Proof.
  intros Hne H.
  destruct (Nat.le_gt_cases (length prices) 3) as [Hs | Hl].
  - rewrite (first_average_small prices m k Hs) in H.
    injection H as _ E _. congruence.
  - destruct (length (remaining_prices prices m k)) as [|[|c]] eqn:E.
    + rewrite (first_average_zero_left prices m k Hl E) in H.
      injection H as _ E' _. congruence.
    + destruct (first_average_one_left prices m k Hl E) as (hi & _ & Hres).
      rewrite Hres in H. injection H as _ Hnil _.
      repeat split; try assumption.
      assert (Hall : forall p, In p prices -> p == hi).
      { intros p Hp. destruct (Qeq_bool p hi) eqn:Ep.
        - now apply Qeq_bool_iff.
        - exfalso. assert (Hin : In p (without hi prices))
            by (apply filter_In; rewrite Ep; auto).
          rewrite Hnil in Hin. destruct Hin. }
      intros p q Hp Hq. rewrite (Hall p Hp), (Hall q Hq). reflexivity.
    + rewrite first_average_many_left in H by lia.
      injection H as _ Hnil _. rewrite Hnil in E. discriminate E.
Qed.






Lemma validated_four_fives : validated [5; 5; 5; 5].
Proof.
  intros p Hp. simpl in Hp.
  destruct Hp as [<- | [<- | [<- | [<- | []]]]]; reflexivity.
Qed.

(** C2, at the input where the code departs from it.  Four equal bids
    with m = 3, k = 0 leave one survivor; removing every price equal to
    the maximum then leaves nothing, so the basis is empty and both
    averages are [NaN] instead of positive numbers. *)
Theorem all_equal_single_survivor_empty_basis :
  validated [5; 5; 5; 5] /\
  length (remaining_prices [5; 5; 5; 5] 3 0) = 1%nat /\
  calculate_first_average [5; 5; 5; 5] 3 0 = Returns (NaN, [], note_one_left) /\
  calculate_second_average [] NaN (- (2 # 10)) (1 # 10) =
    (NaN, [], note_fallback_first) /\
  ~ Num.positive NaN.
Proof.
  split; [exact validated_four_fives|].
  repeat split; try reflexivity. intro H; exact H.
Qed.

(** C1, at the input where the code departs from it.  For the validated
    list of four equal bids, the default coefficients (both non-negative)
    and trim counts m = 3, k = 0, the benchmark is [NaN] and so is every
    score of the run: none lies in [0, 100]. *)
Theorem all_equal_single_survivor_scores_nan :
  validated [5; 5; 5; 5] /\
  0 <= e_higher (with_trim 3 0) /\
  0 <= e_lower (with_trim 3 0) /\
  scores_of (evaluate (with_trim 3 0) [5; 5; 5; 5]) = [NaN; NaN; NaN; NaN] /\
  ~ Num.within 0 100 NaN.
Proof.
  split; [exact validated_four_fives|].
  repeat split; try discriminate; try reflexivity. intro H; exact H.
Qed.

(** C9. The concrete run: prices 100, 110, 90, 105, 95, no trimming,
    s1 = -0.2, s2 = 0.1, K = 0.90, E_higher = 1.0, E_lower = 0.5.  Then
    A1 = 100, all five prices stay in the band and A2 = 100, D = 90, the
    bid of 100 scores 88.89 and the bid of 90 scores 100. *)
Theorem concrete_scenario :
  exists rep r1 r3,
    evaluate default_params [100; 110; 90; 105; 95] = Returns (Some rep) /\
    Num.same (first_avg rep) (Fin 100) /\
    final_prices rep = [90; 95; 100; 105; 110] /\
    Num.same (second_avg rep) (Fin 100) /\
    Num.same (base_price rep) (Fin 90) /\
    nth_error (results rep) 0 = Some r1 /\
    price r1 = 100 /\
    Num.same (score r1) (Fin (8889 # 100)) /\
    nth_error (results rep) 2 = Some r3 /\
    price r3 = 90 /\
    Num.same (score r3) (Fin 100).
Proof.
  do 3 eexists.
  split; [vm_compute; reflexivity|].
  cbn [first_avg final_prices second_avg base_price results nth_error].
  repeat split; vm_compute; reflexivity.
Qed.

(** ** Further properties of the program *)

(** *** Sorting and sums *)

Lemma insert_perm (x : Q) (l : list Q) : Permutation (insert x l) (x :: l).
Proof.
  induction l as [|y rest IH]; simpl; [apply Permutation_refl|].
  destruct (Qle_bool x y); [apply Permutation_refl|].
  eapply perm_trans; [apply perm_skip, IH | apply perm_swap].
Qed.

Lemma sorted_perm (l : list Q) : Permutation (sorted l) l.
Proof.
  induction l as [|x rest IH]; simpl; [apply perm_nil|].
  eapply perm_trans; [apply insert_perm | apply perm_skip, IH].
Qed.

Lemma insert_sorted (x : Q) (l : list Q) :
  StronglySorted Qle l -> StronglySorted Qle (insert x l).
Proof.
  induction l as [|y rest IH]; intro H; simpl.
  - constructor; constructor.
  - inversion H as [|? ? Hrest Hall]; subst.
    destruct (Qle_bool x y) eqn:E.
    + apply Qle_bool_iff in E. constructor; [exact H|].
      constructor; [exact E|].
      eapply Forall_impl; [|exact Hall].
      intros z Hz. eapply Qle_trans; eassumption.
    + assert (Hyx : y <= x).
      { apply Qlt_le_weak, Qnot_le_lt. intro Hle.
        apply Qle_bool_iff in Hle. congruence. }
      constructor; [apply IH, Hrest|].
      apply Forall_forall. intros z Hz. apply insert_in in Hz.
      destruct Hz as [-> | Hz]; [exact Hyx|].
      rewrite Forall_forall in Hall. apply Hall, Hz.
Qed.

Lemma sorted_sorted (l : list Q) : StronglySorted Qle (sorted l).
Proof.
  induction l as [|x rest IH]; simpl; [constructor|].
  apply insert_sorted, IH.
Qed.

Lemma strongly_sorted_app (l1 l2 : list Q) :
  StronglySorted Qle (l1 ++ l2) ->
  forall a b, In a l1 -> In b l2 -> a <= b.
Proof.
  induction l1 as [|x rest IH]; intros H a b Ha Hb; [destruct Ha|].
  simpl in H. inversion H as [|? ? Hrest Hall]; subst.
  destruct Ha as [-> | Ha].
  - rewrite Forall_forall in Hall. apply Hall, in_or_app. right. exact Hb.
  - apply (IH Hrest a b Ha Hb).
Qed.

Lemma strongly_sorted_app_r (l1 l2 : list Q) :
  StronglySorted Qle (l1 ++ l2) -> StronglySorted Qle l2.
Proof.
  induction l1 as [|x rest IH]; intro H; [exact H|].
  simpl in H. inversion H; subst. now apply IH.
Qed.

Lemma sum_app (l1 l2 : list Q) : sum (l1 ++ l2) == sum l1 + sum l2.
Proof.
  induction l1 as [|x rest IH]; simpl.
  - lra.
  - fold (sum (rest ++ l2)). fold (sum rest). rewrite IH. lra.
Qed.

Lemma sum_perm (l l' : list Q) : Permutation l l' -> sum l == sum l'.
Proof.
  induction 1 as [| x l l' _ IH | x y l | l l' l'' _ IH1 _ IH2]; simpl.
  - reflexivity.
  - fold (sum l). fold (sum l'). rewrite IH. reflexivity.
  - fold (sum l). lra.
  - rewrite IH1. exact IH2.
Qed.




Lemma np_mean_fin (l : list Q) : l <> [] -> np_mean l = Fin (arithmetic_mean l).
Proof. destruct l; [congruence | reflexivity]. Qed.

(** *** The first average *)

(** X1. Whatever branch is taken, the returned A1 is the mean of the
    returned basis, and every price of the basis is one of the given
    prices. *)
Theorem first_average_is_mean_of_basis (prices : list Q) (m k : Z) (a1 : num)
  (basis : list Q) (note : string) :
  calculate_first_average prices m k = Returns (a1, basis, note) ->
  a1 = np_mean basis /\
  (basis <> [] -> a1 = Fin (arithmetic_mean basis)) /\
  (forall p, In p basis -> In p prices).
Proof.
  intro H. destruct (first_average_basis prices m k a1 basis note H) as [E Hsub].
  split; [exact E|]. split; [|exact Hsub].
  intro Hne. rewrite E. apply np_mean_fin, Hne.
Qed.

Lemma first_average_is_mean_of_basis_witness :
  Fin (9 # 3) = np_mean [2; 3; 4] /\
  ([2; 3; 4] <> [] -> Fin (9 # 3) = Fin (arithmetic_mean [2; 3; 4])) /\
  (forall p, In p [2; 3; 4] -> In p [5; 1; 3; 2; 4]).
Proof.
  apply (first_average_is_mean_of_basis [5; 1; 3; 2; 4] 1 1 (Fin (9 # 3))
           [2; 3; 4] note_remaining).
  reflexivity.
Defined.

Lemma without_nil_iff (hi : Q) (l : list Q) :
  without hi l = [] <-> forall p, In p l -> p == hi.
Proof.
  unfold without. induction l as [|x rest IH]; simpl.
  - split; [intros _ p [] | reflexivity].
  - destruct (Qeq_bool x hi) eqn:E; simpl.
    + apply Qeq_bool_iff in E. rewrite IH. split.
      * intros H p [<- | Hp]; auto.
      * intros H p Hp. apply H. right. exact Hp.
    + apply Qeq_bool_false_iff in E. split; [discriminate|].
      intro H. exfalso. apply E, H. left. reflexivity.
Qed.

(** X2. For a non-empty price list the returned basis is empty exactly
    when more than three prices are given, one price survives the trim,
    and all prices are equal; A1 is then [NaN]. *)
Theorem basis_empty_iff_all_equal (prices : list Q) (m k : Z) :
  prices <> [] ->
  ((exists a1 note, calculate_first_average prices m k = Returns (a1, [], note))
   <->
   ((3 < length prices)%nat /\
    length (remaining_prices prices m k) = 1%nat /\
    forall p q, In p prices -> In q prices -> p == q)) /\
  (forall a1 note,
     calculate_first_average prices m k = Returns (a1, [], note) -> a1 = NaN).
Proof.
  intro Hne. split; [split|].
  - intros (a1 & note & H). exact (first_average_basis_empty prices m k a1 note Hne H).
  - intros (Hn & H1 & Hall).
    destruct (first_average_one_left prices m k Hn H1) as (hi & [Hin _] & Hres).
    assert (E : without hi prices = []).
    { apply without_nil_iff. intros p Hp. apply Hall; assumption. }
    rewrite E in Hres. eauto.
  - intros a1 note H.
    destruct (first_average_basis prices m k a1 [] note H) as [E _]. exact E.
Qed.

Lemma basis_empty_iff_all_equal_witness :
  ((exists a1 note,
      calculate_first_average [7; 7; 7; 7; 7] 2 2 = Returns (a1, [], note))
   <->
   ((3 < length [7; 7; 7; 7; 7])%nat /\
    length (remaining_prices [7; 7; 7; 7; 7] 2 2) = 1%nat /\
    forall p q, In p [7; 7; 7; 7; 7] -> In q [7; 7; 7; 7; 7] -> p == q)) /\
  (forall a1 note,
     calculate_first_average [7; 7; 7; 7; 7] 2 2 = Returns (a1, [], note) ->
     a1 = NaN).
Proof.
  apply (basis_empty_iff_all_equal [7; 7; 7; 7; 7] 2 2). discriminate.
Defined.

Lemma remaining_prices_in_range (prices : list Q) (m k : Z) :
  (0 <= k)%Z -> (0 <= m)%Z -> (k + m <= Z.of_nat (length prices))%Z ->
  remaining_prices prices m k =
  firstn (Z.to_nat (Z.of_nat (length prices) - m - k))
         (skipn (Z.to_nat k) (sorted prices)).
Proof.
  intros Hk Hm Hkm. unfold remaining_prices, py_slice, adjust_index.
  rewrite sorted_length.
  destruct (Z.ltb_spec k 0); [lia|].
  destruct (Z.ltb_spec (Z.of_nat (length prices) - m) 0); [lia|].
  f_equal; [lia | f_equal; lia].
Qed.

(** X3. With non-negative trim counts that fit in the list, the trim cuts
    the ascending order of the prices into the [k] lowest, the survivors,
    and the [m] highest: no dropped low price exceeds a survivor, no
    survivor exceeds a dropped high price, and nothing is lost. *)
Theorem trim_drops_lowest_and_highest (prices : list Q) (m k : Z) :
  (0 <= k)%Z -> (0 <= m)%Z -> (k + m <= Z.of_nat (length prices))%Z ->
  exists low high,
    Permutation prices (low ++ remaining_prices prices m k ++ high) /\
    Z.of_nat (length low) = k /\
    Z.of_nat (length high) = m /\
    Z.of_nat (length (remaining_prices prices m k)) =
      (Z.of_nat (length prices) - m - k)%Z /\
    StronglySorted Qle (remaining_prices prices m k) /\
    (forall a b, In a low -> In b (remaining_prices prices m k) -> a <= b) /\
    (forall b c, In b (remaining_prices prices m k) -> In c high -> b <= c).
Proof.
  intros Hk Hm Hkm.
  rewrite (remaining_prices_in_range prices m k Hk Hm Hkm).
  set (s := sorted prices).
  set (kk := Z.to_nat k).
  set (j := Z.to_nat (Z.of_nat (length prices) - m - k)).
  exists (firstn kk s), (skipn j (skipn kk s)).
  assert (Hs : s = firstn kk s ++ firstn j (skipn kk s) ++ skipn j (skipn kk s)).
  { rewrite (firstn_skipn j), (firstn_skipn kk). reflexivity. }
  assert (Hsorted : StronglySorted Qle s) by apply sorted_sorted.
  assert (Hlen : length s = length prices) by apply sorted_length.
  split; [|split; [|split; [|split; [|split; [|split]]]]].
  - rewrite <- Hs. apply Permutation_sym, sorted_perm.
  - rewrite length_firstn. lia.
  - rewrite !length_skipn. lia.
  - rewrite length_firstn, length_skipn. lia.
  - rewrite Hs in Hsorted. apply strongly_sorted_app_r in Hsorted.
    clear Hs. revert Hsorted.
    generalize (firstn j (skipn kk s)) (skipn j (skipn kk s)).
    intros l1 l2. induction l1 as [|x rest IH]; intro H; [constructor|].
    simpl in H. inversion H as [|? ? Hrest Hall]; subst.
    constructor; [apply IH, Hrest|].
    rewrite Forall_forall in *. intros z Hz. apply Hall, in_or_app. auto.
  - intros a b Ha Hb. rewrite Hs in Hsorted.
    apply (strongly_sorted_app _ _ Hsorted a b Ha). apply in_or_app. auto.
  - intros b c Hb Hc. rewrite Hs in Hsorted.
    apply strongly_sorted_app_r in Hsorted.
    apply (strongly_sorted_app _ _ Hsorted b c Hb Hc).
Qed.

Lemma trim_drops_lowest_and_highest_witness :
  exists low high,
    Permutation [30; 10; 50; 20; 40]
                (low ++ remaining_prices [30; 10; 50; 20; 40] 1 2 ++ high) /\
    Z.of_nat (length low) = 2%Z /\
    Z.of_nat (length high) = 1%Z /\
    Z.of_nat (length (remaining_prices [30; 10; 50; 20; 40] 1 2)) =
      (Z.of_nat (length [30; 10; 50; 20; 40]) - 1 - 2)%Z /\
    StronglySorted Qle (remaining_prices [30; 10; 50; 20; 40] 1 2) /\
    (forall a b, In a low ->
                 In b (remaining_prices [30; 10; 50; 20; 40] 1 2) -> a <= b) /\
    (forall b c, In b (remaining_prices [30; 10; 50; 20; 40] 1 2) ->
                 In c high -> b <= c).
Proof.
  apply (trim_drops_lowest_and_highest [30; 10; 50; 20; 40] 1 2);
    simpl; lia.
Defined.

(** X4. A count of highest prices to drop that exceeds the number [n] of
    prices wraps around: the slice bound [n - m] turns negative and
    counts from the end, so [m = n + j] with [1 <= j <= n] gives the same
    result as [m = j]. *)
Theorem trim_count_wraps_around (prices : list Q) (j k : Z) :
  (1 <= j <= Z.of_nat (length prices))%Z ->
  calculate_first_average prices (Z.of_nat (length prices) + j) k =
  calculate_first_average prices j k.
Proof.
  intro Hj.
  assert (Hrem : remaining_prices prices (Z.of_nat (length prices) + j) k =
                 remaining_prices prices j k).
  { unfold remaining_prices, py_slice. rewrite sorted_length.
    assert (E : adjust_index (Z.of_nat (length prices))
                  (Z.of_nat (length prices) - (Z.of_nat (length prices) + j)) =
                adjust_index (Z.of_nat (length prices))
                  (Z.of_nat (length prices) - j)).
    { unfold adjust_index.
      destruct (Z.ltb_spec (Z.of_nat (length prices)
                            - (Z.of_nat (length prices) + j)) 0); [|lia].
      destruct (Z.ltb_spec (Z.of_nat (length prices) - j) 0); lia. }
    rewrite E. reflexivity. }
  unfold calculate_first_average. rewrite Hrem. reflexivity.
Qed.

Lemma trim_count_wraps_around_witness :
  calculate_first_average [1; 2; 3; 4; 5] (Z.of_nat (length [1; 2; 3; 4; 5]) + 1) 0 =
  calculate_first_average [1; 2; 3; 4; 5] 1 0.
Proof.
  apply (trim_count_wraps_around [1; 2; 3; 4; 5] 1 0). simpl. lia.
Defined.

Lemma remaining_prices_no_trim (prices : list Q) :
  remaining_prices prices 0 0 = sorted prices.
Proof.
  rewrite remaining_prices_in_range by lia.
  replace (Z.to_nat (Z.of_nat (length prices) - 0 - 0))
    with (length (sorted prices)) by (rewrite sorted_length; lia).
  change (Z.to_nat 0) with 0%nat. rewrite skipn_O. apply firstn_all.
Qed.

(** X5. Without trimming (m = k = 0) and for any non-empty price list, A1
    is the arithmetic mean of all prices and the basis holds exactly the
    given prices (in ascending order once there are more than three). *)
Theorem no_trim_plain_mean (prices : list Q) :
  prices <> [] ->
  exists a1 basis note,
    calculate_first_average prices 0 0 = Returns (Fin a1, basis, note) /\
    a1 == arithmetic_mean prices /\
    Permutation basis prices /\
    ((3 < length prices)%nat -> basis = sorted prices) /\
    ((length prices <= 3)%nat -> basis = prices).
Proof.
  intro Hne.
  destruct (Nat.le_gt_cases (length prices) 3) as [Hs | Hl].
  - exists (arithmetic_mean prices), prices, note_all.
    rewrite (first_average_small prices 0 0 Hs), (np_mean_fin prices Hne).
    repeat split; try reflexivity. intro; lia.
  - exists (arithmetic_mean (sorted prices)), (sorted prices), note_remaining.
    assert (Hne' : sorted prices <> []).
    { intro E. apply (f_equal (@length Q)) in E.
      rewrite sorted_length in E. simpl in E. lia. }
    rewrite first_average_many_left;
      [| exact Hl | rewrite remaining_prices_no_trim, sorted_length; lia].
    rewrite remaining_prices_no_trim, (np_mean_fin _ Hne').
    repeat split; try reflexivity.
    + unfold arithmetic_mean.
      rewrite sorted_length, (sum_perm _ _ (sorted_perm prices)). reflexivity.
    + apply sorted_perm.
    + intro; lia.
Qed.

Lemma no_trim_plain_mean_witness :
  exists a1 basis note,
    calculate_first_average [4; 1; 3; 2] 0 0 = Returns (Fin a1, basis, note) /\
    a1 == arithmetic_mean [4; 1; 3; 2] /\
    Permutation basis [4; 1; 3; 2] /\
    ((3 < length [4; 1; 3; 2])%nat -> basis = sorted [4; 1; 3; 2]) /\
    ((length [4; 1; 3; 2] <= 3)%nat -> basis = [4; 1; 3; 2]).
Proof.
  apply (no_trim_plain_mean [4; 1; 3; 2]). discriminate.
Defined.

(** *** The two averages together *)




(** *** The second average *)





(** X8. When every price of the first basis passes the band test, nothing
    is filtered out and the second average is the first one. *)
Theorem nothing_filtered_same_average (prices : list Q) (m k : Z) (s1 s2 : Q)
  (a1 : num) (basis : list Q) (note : string) :
  calculate_first_average prices m k = Returns (a1, basis, note) ->
  basis <> [] ->
  forallb (in_band a1 s1 s2) basis = true ->
  calculate_second_average basis a1 s1 s2 = (a1, basis, note_within_band).
Proof.
  intros H Hne Hall.
  destruct (first_average_basis prices m k a1 basis note H) as [E _].
  assert (F : filter (in_band a1 s1 s2) basis = basis).
  { clear E H Hne. induction basis as [|x rest IH]; [reflexivity|].
    simpl in Hall |- *. apply andb_true_iff in Hall. destruct Hall as [Hx Hr].
    rewrite Hx, (IH Hr). reflexivity. }
  unfold calculate_second_average. rewrite F.
  destruct basis as [|x rest]; [congruence|].
  rewrite E. reflexivity.
Qed.

Lemma nothing_filtered_same_average_witness :
  calculate_second_average [90; 95; 100; 105; 110] (Fin (500 # 5))
    (- (2 # 10)) (1 # 10) =
  (Fin (500 # 5), [90; 95; 100; 105; 110], note_within_band).
Proof.
  apply (nothing_filtered_same_average [100; 110; 90; 105; 95] 0 0
           (- (2 # 10)) (1 # 10) (Fin (500 # 5)) [90; 95; 100; 105; 110]
           note_remaining); try reflexivity. discriminate.
Defined.

(** *** The score *)



Lemma clamp0_ge (x : Q) : x <= clamp0 x.
Proof.
  unfold clamp0. destruct (Num.Qlt_bool x 0) eqn:E; [|apply Qle_refl].
  apply Qlt_bool_iff in E. lra.
Qed.

Lemma clamp0_id (x : Q) : 0 <= x -> clamp0 x = x.
Proof.
  intro H. unfold clamp0.
  destruct (Num.Qlt_bool x 0) eqn:E; [|reflexivity].
  apply Qlt_bool_iff in E. lra.
Qed.

Lemma round2_0 : round2 0 == 0.
Proof. reflexivity. Qed.

Lemma score_value_off_benchmark (p d eh el : Q) :
  ~ p == d ->
  score_value p d eh el = clamp0 (round2 (raw_score p d eh el)).
Proof.
  intro H. apply Qeq_bool_false_iff in H.
  unfold score_value, raw_score. now rewrite H.
Qed.

(** X9. Against a finite benchmark other than 0 the score is a whole
    number of hundredths. *)
Theorem score_has_two_decimals (p d eh el : Q) :
  ~ d == 0 ->
  exists (s : Q) (z : Z),
    calculate_price_score p (Fin d) eh el = Fin s /\ s == inject_Z z / 100.
Proof.
  intro Hd. rewrite (calculate_price_score_fin p d eh el Hd).
  unfold score_value.
  destruct (Qeq_bool p d).
  - exists 100, 10000%Z. split; reflexivity.
  - unfold clamp0. destruct (Num.Qlt_bool _ 0).
    + exists 0, 0%Z. split; reflexivity.
    + eexists _, _. split; [reflexivity|]. unfold round2. reflexivity.
Qed.

Lemma score_has_two_decimals_witness :
  exists (s : Q) (z : Z),
    calculate_price_score 100 (Fin 90) 1 (1 # 2) = Fin s /\
    s == inject_Z z / 100.
Proof.
  apply (score_has_two_decimals 100 90 1 (1 # 2)). intro H. discriminate H.
Defined.



Lemma loss_above (p d e : Q) :
  0 < d -> d <= p -> loss p d e == (p - d) * e / d * 100.
Proof.
  intros Hd Hp. unfold loss. rewrite (Qabs_pos (p - d)) by lra.
  field. lra.
Qed.

Lemma loss_below (p d e : Q) :
  0 < d -> p <= d -> loss p d e == (d - p) * e / d * 100.
Proof.
  intros Hd Hp. unfold loss. rewrite (Qabs_neg (p - d)) by lra.
  field. lra.
Qed.

Lemma score_value_zero (p d eh el : Q) :
  ~ p == d -> raw_score p d eh el <= 0 -> score_value p d eh el == 0.
Proof.
  intros Hp Hraw. rewrite (score_value_off_benchmark p d eh el Hp).
  assert (H : round2 (raw_score p d eh el) <= 0).
  { apply Qle_trans with (round2 0); [apply round2_mono, Hraw|].
    apply Qle_lteq. right. apply round2_0. }
  unfold clamp0. destruct (Num.Qlt_bool _ 0) eqn:E; [reflexivity|].
  apply Qlt_bool_false_iff in E. apply Qle_antisym; assumption.
Qed.

(** X11. The score is cut off at 0: against a benchmark D > 0, a bid above
    D with (p - D) * E_higher >= D, or a bid below D with
    (D - p) * E_lower >= D, scores 0. *)
Theorem score_zero_when_far (p d eh el : Q) :
  0 < d ->
  (d < p /\ d <= (p - d) * eh) \/ (p < d /\ d <= (d - p) * el) ->
  exists s, calculate_price_score p (Fin d) eh el = Fin s /\ s == 0.
Proof.
  intros Hd Hfar.
  rewrite calculate_price_score_fin by lra.
  eexists. split; [reflexivity|].
  apply score_value_zero; [destruct Hfar as [[H _] | [H _]]; lra|].
  unfold raw_score.
  destruct Hfar as [[Hp He] | [Hp He]].
  - assert (S : Num.Qlt_bool d p = true) by (apply Qlt_bool_iff; exact Hp).
    rewrite S, loss_above by lra.
    assert (1 <= (p - d) * eh / d) by (apply Qle_shift_div_l; lra).
    lra.
  - assert (S : Num.Qlt_bool d p = false) by (apply Qlt_bool_false_iff; lra).
    rewrite S, loss_below by lra.
    assert (1 <= (d - p) * el / d) by (apply Qle_shift_div_l; lra).
    lra.
Qed.

Lemma score_zero_when_far_witness :
  exists s, calculate_price_score 200 (Fin 90) 1 (1 # 2) = Fin s /\ s == 0.
Proof.
  apply (score_zero_when_far 200 90 1 (1 # 2)).
  - reflexivity.
  - left. split; [reflexivity | discriminate].
Defined.

(** X12. The score is not cut off from above: against a benchmark D > 0,
    a bid other than D whose side has a coefficient that is not positive
    scores at least 100 (exactly 100 when the coefficient is 0). *)
Theorem score_not_clamped_above (p d eh el : Q) :
  0 < d ->
  (d < p /\ eh <= 0) \/ (p < d /\ el <= 0) ->
  exists s,
    calculate_price_score p (Fin d) eh el = Fin s /\
    100 <= s /\
    ((d < p /\ eh == 0) \/ (p < d /\ el == 0) -> s == 100).
Proof.
  intros Hd Hside.
  rewrite calculate_price_score_fin by lra.
  eexists. split; [reflexivity|].
  assert (Hp : ~ p == d) by (destruct Hside as [[H _] | [H _]]; lra).
  rewrite (score_value_off_benchmark p d eh el Hp).
  assert (Hinv : 0 < / d) by (apply Qinv_lt_0_compat, Hd).
  assert (Hraw : 100 <= raw_score p d eh el).
  { unfold raw_score. destruct Hside as [[H He] | [H He]].
    - assert (S : Num.Qlt_bool d p = true) by (apply Qlt_bool_iff; exact H).
      rewrite S, loss_above by lra.
      assert ((p - d) * eh / d <= 0).
      { apply Qle_shift_div_r; [exact Hd|]. nra. }
      lra.
    - assert (S : Num.Qlt_bool d p = false) by (apply Qlt_bool_false_iff; lra).
      rewrite S, loss_below by lra.
      assert ((d - p) * el / d <= 0).
      { apply Qle_shift_div_r; [exact Hd|]. nra. }
      lra. }
  assert (Hlow : 100 <= round2 (raw_score p d eh el)).
  { apply Qle_trans with (round2 100);
      [apply Qle_lteq; right; symmetry; apply round2_100 | apply round2_mono, Hraw]. }
  split.
  - eapply Qle_trans; [exact Hlow | apply clamp0_ge].
  - intro Hzero. rewrite clamp0_id by lra.
    apply Qle_antisym; [|exact Hlow].
    apply Qle_trans with (round2 100);
      [|apply Qle_lteq; right; apply round2_100].
    apply round2_mono. unfold raw_score.
    destruct Hzero as [[H He] | [H He]].
    + assert (S : Num.Qlt_bool d p = true) by (apply Qlt_bool_iff; exact H).
      rewrite S, (loss_comp p d eh 0 He). unfold loss. lra.
    + assert (S : Num.Qlt_bool d p = false) by (apply Qlt_bool_false_iff; lra).
      rewrite S, (loss_comp p d el 0 He). unfold loss. lra.
Qed.

Lemma score_not_clamped_above_witness :
  exists s,
    calculate_price_score 100 (Fin 90) 0 (1 # 2) = Fin s /\
    100 <= s /\
    ((90 < 100 /\ 0 == 0) \/ (100 < 90 /\ 1 # 2 == 0) -> s == 100).
Proof.
  apply (score_not_clamped_above 100 90 0 (1 # 2)).
  - reflexivity.
  - left. split; [reflexivity | discriminate].
Defined.

(** *** The whole run, continued *)

(** The trim counts a run passes to [calculate_first_average]. *)
Lemma evaluate_inv (cfg : params) (prices : list Q) (rep : report) :
  evaluate cfg prices = Returns (Some rep) ->
  prices <> [] /\
  (exists m k,
     (if use_elimination cfg
      then m = m_value cfg /\ k = k_value_elim cfg
      else m = 0%Z /\ k = 0%Z) /\
     calculate_first_average prices m k =
     Returns (first_avg rep, first_basis rep, first_avg_note rep)) /\
  calculate_second_average (first_basis rep) (first_avg rep)
    (s1_value cfg) (s2_value cfg) =
  (second_avg rep, final_prices rep, second_avg_note rep) /\
  base_price rep = Num.mul (second_avg rep) (Fin (k_value cfg)) /\
  results rep =
  score_rows cfg (first_avg rep) (second_avg rep) (base_price rep) 1 prices.
Proof.
  intro Hrun. unfold evaluate in Hrun.
  destruct prices as [|x rest] eqn:Eprices; [discriminate|].
  rewrite <- Eprices in *.
  split; [rewrite Eprices; discriminate|].
  destruct (use_elimination cfg).
  - destruct (calculate_first_average prices (m_value cfg) (k_value_elim cfg))
      as [[[a1 basis] note] | e] eqn:E1; [|discriminate].
    cbn [bind] in Hrun.
    destruct (calculate_second_average basis a1 (s1_value cfg) (s2_value cfg))
      as [[a2 fin] note2] eqn:E2.
    injection Hrun as <-. cbn.
    split; [exists (m_value cfg), (k_value_elim cfg); auto|]. auto.
  - destruct (calculate_first_average prices 0 0)
      as [[[a1 basis] note] | e] eqn:E1; [|discriminate].
    cbn [bind] in Hrun.
    destruct (calculate_second_average basis a1 (s1_value cfg) (s2_value cfg))
      as [[a2 fin] note2] eqn:E2.
    injection Hrun as <-. cbn.
    split; [exists 0%Z, 0%Z; auto|]. auto.
Qed.

Lemma score_rows_shape (cfg : params) (a1 a2 d : num) (prices : list Q) :
  forall start,
    map price (score_rows cfg a1 a2 d start prices) = prices /\
    map index (score_rows cfg a1 a2 d start prices) = seq start (length prices) /\
    Forall (fun r => row_first_avg r = a1 /\ row_second_avg r = a2 /\
                     row_base_price r = d /\
                     score r = calculate_price_score (price r) d
                                 (e_higher cfg) (e_lower cfg))
           (score_rows cfg a1 a2 d start prices).
Proof.
  induction prices as [|p rest IH]; intro start; simpl.
  - repeat split. constructor.
  - destruct (IH (S start)) as (Hp & Hi & Hall).
    rewrite Hp, Hi. repeat split. constructor; [cbn; auto | exact Hall].
Qed.

(** X13. A run that produces a report has one row per given bid, in the
    given order and numbered from 1, including the bids trimmed or
    filtered out of the averages; every row carries the run's A1, A2 and
    benchmark D = A2 * K, and its score is that of its own price against
    D. *)
Theorem one_row_per_bid (cfg : params) (prices : list Q) (rep : report) :
  evaluate cfg prices = Returns (Some rep) ->
  map price (results rep) = prices /\
  map index (results rep) = seq 1 (length prices) /\
  base_price rep = Num.mul (second_avg rep) (Fin (k_value cfg)) /\
  Forall (fun r => row_first_avg r = first_avg rep /\
                   row_second_avg r = second_avg rep /\
                   row_base_price r = base_price rep /\
                   score r = calculate_price_score (price r) (base_price rep)
                               (e_higher cfg) (e_lower cfg))
         (results rep).
Proof.
  intro Hrun.
  destruct (evaluate_inv cfg prices rep Hrun) as (_ & _ & _ & Hd & Hres).
  rewrite Hres.
  destruct (score_rows_shape cfg (first_avg rep) (second_avg rep)
              (base_price rep) prices 1%nat) as (Hp & Hi & Hall).
  repeat split; assumption.
Qed.





Lemma one_row_per_bid_witness :
  exists rep,
    evaluate default_params [100; 110; 90; 105; 95] = Returns (Some rep) /\
    map price (results rep) = [100; 110; 90; 105; 95].
Proof.
  destruct (evaluate default_params [100; 110; 90; 105; 95])
    as [[rep|]|e] eqn:E.
  - exists rep. split; [reflexivity|].
    apply (one_row_per_bid default_params [100; 110; 90; 105; 95] rep E).
  - vm_compute in E. discriminate E.
  - vm_compute in E. discriminate E.
Defined.

Lemma second_average_single (p s1 s2 : Q) :
  exists note,
    calculate_second_average [p] (np_mean [p]) s1 s2 = (np_mean [p], [p], note).
Proof.
  unfold calculate_second_average. cbn [filter].
  destruct (in_band (np_mean [p]) s1 s2 p); eexists; reflexivity.
Qed.

(** X16. A lone bid: whatever the parameters, A1 and A2 are the bid
    itself, both bases are the bid alone, and D is the bid times K. *)
Theorem lone_bid_is_its_own_average (cfg : params) (p : Q) :
  exists rep,
    evaluate cfg [p] = Returns (Some rep) /\
    Num.same (first_avg rep) (Fin p) /\
    Num.same (second_avg rep) (Fin p) /\
    Num.same (base_price rep) (Fin (p * k_value cfg)) /\
    first_basis rep = [p] /\
    final_prices rep = [p].
Proof.
  destruct (second_average_single p (s1_value cfg) (s2_value cfg)) as [note E2].
  assert (E1 : (if use_elimination cfg
                then calculate_first_average [p] (m_value cfg) (k_value_elim cfg)
                else calculate_first_average [p] 0 0)
               = Returns (np_mean [p], [p], note_all)).
  { destruct (use_elimination cfg); apply first_average_small; simpl; lia. }
  unfold evaluate. rewrite E1. cbn [bind]. rewrite E2.
  eexists. split; [reflexivity|].
  cbn [first_avg second_avg base_price first_basis final_prices].
  assert (Hmean : sum [p] / inject_Z (Z.of_nat (length [p])) == p).
  { change (sum [p]) with (p + 0).
    change (inject_Z (Z.of_nat (length [p]))) with 1. field. }
  unfold np_mean. cbn [Num.mul Num.same].
  repeat split; try exact Hmean. rewrite Hmean. reflexivity.
Qed.

(** *** Manual entry and the stored prices *)

Lemma existsb_nonpositive_false (l : list Q) :
  existsb (fun p => Qle_bool p 0) l = false <-> validated l.
Proof.
  unfold validated. induction l as [|x rest IH]; simpl.
  - split; [intros _ p [] | reflexivity].
  - rewrite orb_false_iff, IH. split.
    + intros [Hx Hr] p [<- | Hp]; [|apply Hr, Hp].
      apply Qnot_le_lt. intro Hle. apply Qle_bool_iff in Hle. congruence.
    + intro H. split.
      * apply not_true_is_false. intro Hle. apply Qle_bool_iff in Hle.
        specialize (H x (or_introl eq_refl)). lra.
      * intros p Hp. apply H. right. exact Hp.
Qed.



(** X18. A rejected entry (a line that is not a number, or a price that
    is not positive) shows an error, leaves the session unchanged, and the
    run is computed on the prices stored before; an accepted non-empty
    entry replaces the stored prices, clears the flag, and is the list the
    run is computed on; an entry of blank lines only empties the stored
    prices, and nothing is computed. *)
Theorem rejected_entry_keeps_stored_prices (cfg : params) (l : list Q)
  (st : session) :
  run_manual cfg NotNumeric st =
    (st, Some error_not_numeric, evaluate cfg (current_prices st)) /\
  (~ validated l ->
   run_manual cfg (Numbers l) st =
     (st, Some error_not_positive, evaluate cfg (current_prices st))) /\
  (validated l -> l <> [] ->
   run_manual cfg (Numbers l) st =
     ({| current_prices := l; need_recalculate := false |}, None,
      evaluate cfg l)) /\
  run_manual cfg (Numbers []) st =
    ({| current_prices := []; need_recalculate := false |}, None, Returns None).
Proof.
  assert (Hstored : prices_for_run [] st = current_prices st).
  { unfold prices_for_run. destruct (current_prices st); reflexivity. }
  split; [|split; [|split]]; [| | | reflexivity].
  - unfold run_manual, manual_input. cbv beta iota.
    rewrite Hstored. reflexivity.
  - intro Hbad. unfold run_manual, manual_input.
    destruct (existsb (fun p => Qle_bool p 0) l) eqn:E.
    + cbv beta iota. rewrite Hstored. reflexivity.
    + exfalso. apply Hbad. now apply existsb_nonpositive_false.
  - intros Hv Hne. unfold run_manual, manual_input.
    apply existsb_nonpositive_false in Hv. rewrite Hv. cbv beta iota.
    unfold prices_for_run, store_prices.
    destruct l; [congruence | reflexivity].
Qed.

Lemma not_validated_example : ~ validated [5; -1].
Proof.
  intro H. specialize (H (-1) (or_intror (or_introl eq_refl))).
  discriminate H.
Qed.

Lemma rejected_entry_keeps_stored_prices_witness :
  run_manual default_params (Numbers [5; -1])
    {| current_prices := [3; 4]; need_recalculate := true |} =
  ({| current_prices := [3; 4]; need_recalculate := true |},
   Some error_not_positive, evaluate default_params [3; 4]).
Proof.
  apply (rejected_entry_keeps_stored_prices default_params [5; -1]
           {| current_prices := [3; 4]; need_recalculate := true |}).
  exact not_validated_example.
Defined.
